(** * boopy: the [PolyGroup] wrapper of src/boopy/boopy.cpp

    [PolyGroup] owns a [std::vector] of [gtl::polygon_data<int>] and
    forwards every geometric operation to boost::polygon ([gtl]).  The
    wrapper itself is embedded from the source; the library it calls is
    not part of the source tree and enters either as a parameter of the
    section [Wrapper] or, where stated, as a model written from the
    specification. *)

From Stdlib Require Import ZArith QArith Lia.
From stdpp Require Import base list.

Local Open Scope Z_scope.

(** ** Machine integers

    [unsigned int] is 32 bits wide; its arithmetic wraps.  [size_t] is 64
    bits wide and no vector is long enough to make it wrap, so sizes are
    plain [Z]. *)

Definition UINT_MOD : Z := 4294967296.

Definition u32 (z : Z) : Z := z mod UINT_MOD.

(** ** Data model *)

(** Modelled from the spec: [gtl::point_data<int>] (boost::polygon, not in
    the source tree), "an ordered pair of signed integers (x, y)". *)
Abbreviation Point := (Z * Z)%type.

Definition construct (x y : Z) : Point := (x, y).
Definition px (p : Point) : Z := fst p.
Definition py (p : Point) : Z := snd p.

(** Modelled from the spec: [gtl::polygon_data<int>] (boost::polygon, not
    in the source tree): the vertices "in original insertion order (no
    implicit closing point emitted)", with "no deduplication or
    edge-validity checking" at construction. *)
Abbreviation Polygon := (list Point).

(** [gtl::set_points(poly, first, last)] on an array [pts]: the polygon
    takes the [n] points of the range, in order. *)
Definition set_points (pts : list Point) (n : Z) : Polygon :=
  take (Z.to_nat n) pts.

(** [typedef std::vector<gtl::polygon_data<int> > PolygonSet]. *)
Abbreviation PolygonSet := (list Polygon).

Record PolyGroup : Type := mkPolyGroup { ps_ : PolygonSet }.

(** A freshly constructed group ([py::init<>()]). *)
Definition newPolyGroup : PolyGroup := {| ps_ := [] |}.

(** ** Outcomes of a call *)

Inductive exn : Type :=
| out_of_range.

Inductive Outcome (A : Type) : Type :=
| Done (a : A)
| Throw (e : exn)
| OutOfFuel.

Arguments Done {A} a.
Arguments Throw {A} e.
Arguments OutOfFuel {A}.

(** [std::vector<int>::at]: bounds-checked read. *)
Definition vector_at (data : list Z) (k : Z) : option Z :=
  data !! Z.to_nat k.

(** ** addPolyData *)

(** The [for] loop of [addPolyData].  [i] is the [unsigned int] counter,
    [npts] the [size_t] bound; [2*i] and [2*i+1] are computed in
    [unsigned int]. *)
Fixpoint addPolyData_loop (fuel : nat) (data : list Z) (npts i : Z)
    (pts : list Point) : Outcome (list Point) :=
  match fuel with
  | O => OutOfFuel
  | S fuel' =>
      if i <? npts then
        match vector_at data (u32 (2 * i)),
              vector_at data (u32 (u32 (2 * i) + 1)) with
        | Some x, Some y =>
            addPolyData_loop fuel' data npts (u32 (i + 1))
              (<[Z.to_nat i := construct x y]> pts)
        | _, _ => Throw out_of_range
        end
      else Done pts
  end.

(** [addPolyData]: the array [pts] of [npts] default points, the loop,
    [set_points] and [push_back].  Allocation is taken to succeed; when
    [at] throws, [ps_] is as it was. *)
Definition addPolyData (fuel : nat) (data : list Z) (pg : PolyGroup)
    : Outcome PolyGroup :=
  let npts := Z.of_nat (length data) / 2 in
  let pts := replicate (Z.to_nat npts) (construct 0 0) in
  match addPolyData_loop fuel data npts 0 pts with
  | Done pts' => Done {| ps_ := ps_ pg ++ [set_points pts' npts] |}
  | Throw e => Throw e
  | OutOfFuel => OutOfFuel
  end.

(** ** getPolyCount and getPoly *)

Definition getPolyCount (pg : PolyGroup) : Z :=
  u32 (Z.of_nat (length (ps_ pg))).

(** The body of the iteration in [getPoly]: two [push_back]s per vertex. *)
Definition push_vertex (pseq : list Z) (v : Point) : list Z :=
  (pseq ++ [px v]) ++ [py v].

Definition getPoly (n : Z) (pg : PolyGroup) : list Z :=
  if n <? Z.of_nat (length (ps_ pg)) then
    match ps_ pg !! Z.to_nat n with
    | Some poly => foldl push_vertex [] poly
    | None => []
    end
  else [].

(** ** Reference functions used in the statements *)

(** The vertices described by a flat sequence: consecutive pairs, a
    trailing odd element dropped. *)
Fixpoint pairs (l : list Z) : list Point :=
  match l with
  | x :: y :: r => (x, y) :: pairs r
  | _ => []
  end.

(** The flat sequence of a vertex list. *)
Fixpoint flat (poly : list Point) : list Z :=
  match poly with
  | [] => []
  | v :: r => px v :: py v :: flat r
  end.

(** [l2] lists the cycle of [l1] from another starting vertex, in the same
    direction. *)
Definition same_cycle (l1 l2 : list Point) : Prop :=
  ∃ k : nat, l2 = drop k l1 ++ take k l1.

(** ** The methods that forward to the library

    The four compound assignments [-=], [&=], [+=] and [^=] of
    [boost::polygon::operators], and the free functions [gtl::area],
    [gtl::clear], [gtl::empty], [gtl::assign], [gtl::get_trapezoids] and
    [gtl::resize], are library code.  They are parameters here: each
    takes the values it reads and returns the new value of the object it
    writes. *)

Inductive BoolOp : Type :=
| OpMinus   (* -= *)
| OpAnd     (* &= *)
| OpPlus    (* += *)
| OpXor.    (* ^= *)

Section Wrapper.

(** The C++ type [double]. *)
Context {double : Type}.

Variable gtl_area : PolygonSet → double.
Variable gtl_clear : PolygonSet → PolygonSet.
Variable gtl_empty : PolygonSet → bool.
(** [lvalue op= rvalue]: the new [lvalue].  That the right operand is
    only read is the specification's word (section 5: "by read access");
    the declarations of the operators are not in the source. *)
Variable gtl_self_assign : BoolOp → PolygonSet → PolygonSet → PolygonSet.
(** [gtl::assign(lvalue, rvalue)]: the new [lvalue]. *)
Variable gtl_assign : PolygonSet → PolygonSet → PolygonSet.
(** [gtl::get_trapezoids(output, input)]: the new [output]. *)
Variable gtl_get_trapezoids : PolygonSet → PolygonSet → PolygonSet.
(** [gtl::resize(set, value, corner_fill_arc, num_circle_segments)]:
    the value it returns. *)
Variable gtl_resize : PolygonSet → double → bool → Z → PolygonSet.

Definition area (pg : PolyGroup) : double := gtl_area (ps_ pg).

Definition clear (pg : PolyGroup) : PolyGroup :=
  {| ps_ := gtl_clear (ps_ pg) |}.

Definition empty (pg : PolyGroup) : bool := gtl_empty (ps_ pg).

Definition difference (pg pg2 : PolyGroup) : PolyGroup :=
  {| ps_ := gtl_self_assign OpMinus (ps_ pg) (ps_ pg2) |}.

Definition intersection (pg pg2 : PolyGroup) : PolyGroup :=
  {| ps_ := gtl_self_assign OpAnd (ps_ pg) (ps_ pg2) |}.

Definition merge (pg pg2 : PolyGroup) : PolyGroup :=
  {| ps_ := gtl_self_assign OpPlus (ps_ pg) (ps_ pg2) |}.

Definition assign (pg : PolyGroup) : PolyGroup :=
  {| ps_ := gtl_assign (ps_ pg) (ps_ pg) |}.

Definition exor (pg pg2 : PolyGroup) : PolyGroup :=
  {| ps_ := gtl_self_assign OpXor (ps_ pg) (ps_ pg2) |}.

Definition trapezoids (pg : PolyGroup) : PolyGroup :=
  let psin := ps_ pg in
  let pg' := clear pg in
  {| ps_ := gtl_get_trapezoids (ps_ pg') psin |}.

Definition resize (value : double) (corner_fill_arc : bool)
    (num_circle_segments : Z) (pg : PolyGroup) : PolyGroup :=
  {| ps_ := gtl_resize (ps_ pg) value corner_fill_arc num_circle_segments |}.

End Wrapper.

(** ** The boolean engine, written from the specification

    boost::polygon is not part of the source tree.  The definitions of
    this module are written from the specification (sections 3, 4.2, 4.3
    and 4.4): a vertical sweep over the event abscissae, coverage counts
    per input set in every slab, the boolean predicate applied to the two
    coverages, one piece of output per covered interval of a slab.  The
    pieces are the slab decomposition of the result; they are not
    stitched into loops.

    The model is exact when every edge is parallel to an axis: then all
    crossing points are integer points, the only ones a [Point] can
    hold.  The specification does not say how other crossing points are
    stored; for edges that are not axis-parallel the model reads the
    coverage in the middle of each cell of the event grid, which is not
    the filled area.  It is used below on axis-parallel input only. *)

Module SpecEngine.

(** Modelled from the spec: the edges of an "implicitly-closed sequence
    of Points": each vertex to its successor, the last back to the
    first. *)
Definition edges (poly : Polygon) : list (Point * Point) :=
  zip poly (drop 1 poly ++ take 1 poly).

(** Modelled from the spec: "the shoelace formula per polygon, with sign
    determined by winding order"; twice the signed area. *)
Definition shoelace2 (poly : Polygon) : Z :=
  foldr (λ e acc, px e.1 * py e.2 - px e.2 * py e.1 + acc) 0 (edges poly).

(** Modelled from the spec: [gtl::area], "the signed double-precision sum
    of each polygon's contribution".  [total2] is twice the sum; the
    area is kept as an exact rational. *)
Definition total2 (ps : PolygonSet) : Z :=
  foldr (λ poly acc, shoelace2 poly + acc) 0 ps.

(** Modelled from the spec: [gtl::area] itself, half of [total2].  The
    rational is the value of the [double] as long as [total2] is below
    [2^53] in magnitude; rounding beyond that is not modelled. *)
Definition gtl_area (ps : PolygonSet) : Q := Qmake (total2 ps) 2.

(** Modelled from the spec: the sweep events, "sort all polygon edges by
    their start x-coordinate": the distinct coordinates in ascending
    order. *)
Fixpoint insert_event (x : Z) (l : list Z) : list Z :=
  match l with
  | [] => [x]
  | y :: r =>
      if x <? y then x :: l
      else if x =? y then l
      else y :: insert_event x r
  end.

(** Modelled from the spec: the event list of a coordinate list. *)
Definition events (l : list Z) : list Z := foldr insert_event [] l.

(** Modelled from the spec: the slabs "from the previous event's x to the
    current one". *)
Definition slabs (xs : list Z) : list (Z * Z) := zip xs (drop 1 xs).

(** Modelled from the spec: the contribution of one edge to the coverage
    count at a sample point, seen from below.  Coordinates are doubled
    so that the middle of a slab is an integer point: [c] is given in
    doubled coordinates. *)
Definition edge_turn (c : Point) (e : Point * Point) : Z :=
  let x1 := 2 * px e.1 in
  let y1 := 2 * py e.1 in
  let x2 := 2 * px e.2 in
  let y2 := 2 * py e.2 in
  let cr := (x2 - x1) * (py c - y1) - (y2 - y1) * (px c - x1) in
  if (x1 <? px c) && (px c <? x2) && (0 <? cr) then 1
  else if (x2 <? px c) && (px c <? x1) && (cr <? 0) then -1
  else 0.

(** Modelled from the spec: the coverage count of one polygon at a sample
    point: its edges below the point, counted with their direction. *)
Definition winding (poly : Polygon) (c : Point) : Z :=
  foldr (λ e acc, edge_turn c e + acc) 0 (edges poly).

(** Modelled from the spec: the "coverage counts per input set": the
    count of a set at a sample point is the sum over its polygons. *)
Definition coverage (ps : PolygonSet) (c : Point) : Z :=
  foldr (λ poly acc, winding poly c + acc) 0 ps.

(** Modelled from the spec: the fill rule, "nonzero is assumed here". *)
Definition filled (ps : PolygonSet) (c : Point) : bool :=
  negb (coverage ps c =? 0).

(** Modelled from the spec: "the combined boolean predicate
    (OR/AND/AND-NOT/XOR over the two sets' local coverage)". *)
Definition predicate (op : BoolOp) (a b : bool) : bool :=
  match op with
  | OpMinus => a && negb b
  | OpAnd => a && b
  | OpPlus => a || b
  | OpXor => xorb a b
  end.

(** Modelled from the spec: the "active coverage intervals" of one slab:
    maximal runs of covered elementary intervals, bottom to top.
    [start] is the lower end of the run that is open, if any. *)
Fixpoint intervals (cov : Z → Z → bool) (ys : list Z) (start : option Z)
    : list (Z * Z) :=
  match ys with
  | [] => []
  | y0 :: r =>
      match r with
      | [] => match start with Some s => [(s, y0)] | None => [] end
      | y1 :: _ =>
          if cov y0 y1 then intervals cov r (Some (default y0 start))
          else match start with
               | Some s => (s, y0) :: intervals cov r None
               | None => intervals cov r None
               end
      end
  end.

(** Modelled from the spec: the piece emitted for one covered interval
    of one slab, as a counter-clockwise loop. *)
Definition piece (slab : Z * Z) (iv : Z * Z) : Polygon :=
  [ (slab.1, iv.1); (slab.2, iv.1); (slab.2, iv.2); (slab.1, iv.2) ].

(** Modelled from the spec: the coordinates of all vertices of a set, from
    which its events are taken. *)
Definition xcoords (ps : PolygonSet) : list Z := px <$> concat ps.
Definition ycoords (ps : PolygonSet) : list Z := py <$> concat ps.

(** Modelled from the spec: the sweep of section 4.3 for two input sets
    and a boolean predicate. *)
Definition sweep (op : BoolOp) (a b : PolygonSet) : PolygonSet :=
  let xs := events (xcoords a ++ xcoords b) in
  let ys := events (ycoords a ++ ycoords b) in
  slab ← slabs xs;
  let cov y0 y1 :=
    let c := (slab.1 + slab.2, y0 + y1) in
    predicate op (filled a c) (filled b c) in
  piece slab <$> intervals cov ys None.

(** Modelled from the spec: the compound assignments [-=], [&=], [+=],
    [^=]: "difference(A,B): area filled by A and not B", "intersection:
    area filled by both", "union: area filled by A or B", "xor: area
    filled by exactly one of A,B". *)
Definition gtl_self_assign (op : BoolOp) (lvalue rvalue : PolygonSet)
    : PolygonSet :=
  sweep op lvalue rvalue.

End SpecEngine.

(** The two squares of the concrete scenario of the specification. *)
Definition square_A : list Z := [0; 0; 10; 0; 10; 10; 0; 10].
Definition square_B : list Z := [5; 5; 15; 5; 15; 15; 5; 15].


(** ** Definitions used in the statements and proofs *)

(** What iteration [k] of the loop of [addPolyData] reads: the indices
    are computed in [unsigned int]. *)
Definition read_pair (data : list Z) (k : Z) : Point :=
  (default 0 (vector_at data (u32 (2 * k))),
   default 0 (vector_at data (u32 (u32 (2 * k) + 1)))).

(** [n] zeros followed by the vertex (1,1). *)
Definition zeros_then_one (n : nat) : list Z := replicate n 0 ++ [1; 1].

(** A sequence too long for the counter: [2^32 + 2] coordinates, that is
    [2^31 + 1] vertices. *)
Definition long_input : list Z := zeros_then_one (Z.to_nat UINT_MOD).

(** * Properties *)

(** ** Flat sequences and vertex lists *)

Lemma list_pair_ind {A} (P : list A → Prop) :
  P [] → (∀ x, P [x]) → (∀ x y l, P l → P (x :: y :: l)) → ∀ l, P l.
Proof.
  intros Hnil Hone Hstep. fix IH 1.
  intros [|x [|y l]]; [exact Hnil | apply Hone | apply Hstep, IH].
Qed.

Lemma foldl_push_vertex (poly : list Point) (acc : list Z) :
  foldl push_vertex acc poly = acc ++ flat poly.
Proof.
  revert acc. induction poly as [|v r IH]; intros acc; simpl.
  - by rewrite app_nil_r.
  - rewrite IH. unfold push_vertex. by rewrite <- !app_assoc.
Qed.

Lemma pairs_length (data : list Z) :
  Z.of_nat (length (pairs data)) = Z.of_nat (length data) / 2.
Proof.
  induction data as [|x|x y l IH] using list_pair_ind; [done..|].
  cbn [pairs length]. rewrite !Nat2Z.inj_succ, IH.
  replace (Z.succ (Z.succ (Z.of_nat (length l))))
    with (Z.of_nat (length l) + 1 * 2) by lia.
  rewrite Z.div_add by lia. lia.
Qed.

Lemma pairs_lookup (data : list Z) (k : nat) :
  pairs data !! k =
    match data !! (2 * k)%nat, data !! (2 * k + 1)%nat with
    | Some x, Some y => Some (x, y)
    | _, _ => None
    end.
Proof.
  revert k. induction data as [|x|x y l IH] using list_pair_ind; intros k.
  - done.
  - destruct k as [|k]; [done|].
    replace (2 * S k)%nat with (S (S (2 * k))) by lia. done.
  - destruct k as [|k]; [done|].
    replace (2 * S k)%nat with (S (S (2 * k))) by lia.
    replace (S (S (2 * k)) + 1)%nat with (S (S (2 * k + 1))) by lia.
    cbn [pairs]. rewrite !lookup_cons. apply IH.
Qed.

Lemma flat_pairs (data : list Z) :
  flat (pairs data) = take (2 * length (pairs data)) data.
Proof.
  induction data as [|x|x y l IH] using list_pair_ind; [done..|].
  cbn [pairs flat length px py fst snd].
  replace (2 * S (length (pairs l)))%nat
    with (S (S (2 * length (pairs l)))) by lia.
  cbn [take]. by rewrite IH.
Qed.

Lemma flat_pairs_even (data : list Z) :
  Z.even (Z.of_nat (length data)) = true → flat (pairs data) = data.
Proof.
  intros Hev. rewrite flat_pairs. apply take_ge.
  pose proof (pairs_length data) as Hlen.
  pose proof (Zeven_div2 _ (proj1 (Zeven_bool_iff _) Hev)) as Hdiv.
  rewrite Z.div2_div in Hdiv. lia.
Qed.

Lemma flat_pairs_odd (data : list Z) :
  Z.odd (Z.of_nat (length data)) = true →
  flat (pairs data) = take (length data - 1) data.
Proof.
  intros Hodd. rewrite flat_pairs. f_equal.
  pose proof (pairs_length data) as Hlen.
  pose proof (Zodd_div2 _ (proj1 (Zodd_bool_iff _) Hodd)) as Hdiv.
  rewrite Z.div2_div in Hdiv. lia.
Qed.

Lemma same_cycle_elem_of (l1 l2 : list Point) (v : Point) :
  same_cycle l1 l2 → v ∈ l1 → v ∈ l2.
Proof.
  intros [k ->] Hin. rewrite <- (take_drop k l1) in Hin.
  apply elem_of_app in Hin as [Hin|Hin]; apply elem_of_app; auto.
Qed.

(** ** The loop of addPolyData *)

Lemma u32_range (z : Z) : 0 ≤ u32 z < UINT_MOD.
Proof. unfold u32, UINT_MOD. apply Z.mod_pos_bound. lia. Qed.

Lemma u32_le (z : Z) : 0 ≤ z → u32 z ≤ z.
Proof. intros Hz. unfold u32, UINT_MOD. apply Z.mod_le; lia. Qed.

Lemma u32_small (z : Z) : 0 ≤ z < UINT_MOD → u32 z = z.
Proof. intros Hz. unfold u32. by apply Z.mod_small. Qed.

Lemma vector_at_lt (data : list Z) (k : Z) :
  0 ≤ k < Z.of_nat (length data) →
  vector_at data k = Some (default 0 (vector_at data k)).
Proof.
  intros Hk. unfold vector_at.
  destruct (lookup_lt_is_Some_2 data (Z.to_nat k)) as [x ->]; [lia | done].
Qed.

(** While the counter does not wrap, the loop fills the slots [i], [i+1],
    ..., [npts-1] and leaves the ones below [i] as they are. *)
Lemma addPolyData_loop_run (data : list Z) (npts : Z) :
  0 ≤ npts < UINT_MOD →
  2 * npts ≤ Z.of_nat (length data) →
  ∀ (fuel : nat) (i : Z) (pts : list Point),
    0 ≤ i ≤ npts →
    length pts = Z.to_nat npts →
    (Z.to_nat (npts - i) < fuel)%nat →
    addPolyData_loop fuel data npts i pts
    = Done (take (Z.to_nat i) pts ++ (read_pair data <$> seqZ i (npts - i))).
Proof.
  intros Hn Hlen. induction fuel as [|fuel IH]; intros i pts Hi Hpts Hfuel.
  { lia. }
  cbn [addPolyData_loop]. destruct (Z.ltb_spec i npts) as [Hlt|Hge].
  - pose proof (u32_range (2 * i)) as Hr0. pose proof (u32_le (2 * i)) as Hl0.
    pose proof (u32_range (u32 (2 * i) + 1)) as Hr1.
    pose proof (u32_le (u32 (2 * i) + 1)) as Hl1.
    rewrite (vector_at_lt data (u32 (2 * i))) by lia.
    rewrite (vector_at_lt data (u32 (u32 (2 * i) + 1))) by lia.
    rewrite (u32_small (i + 1)) by lia.
    rewrite IH by (rewrite ?length_insert; lia).
    rewrite (seqZ_cons i) by lia. rewrite fmap_cons.
    replace (Z.succ i) with (i + 1) by lia.
    replace (Z.pred (npts - i)) with (npts - (i + 1)) by lia.
    replace (Z.to_nat (i + 1)) with (S (Z.to_nat i)) by lia.
    rewrite (take_S_r _ _ (read_pair data i))
      by (apply list_lookup_insert_eq; lia).
    rewrite take_insert_ge by lia.
    by rewrite <- app_assoc.
  - replace i with npts by lia. rewrite Z.sub_diag.
    rewrite take_ge by lia. by rewrite app_nil_r.
Qed.

(** When the vertex count fits the counter, [addPolyData] returns, and the
    new polygon consists of what the iterations read. *)
Lemma addPolyData_run (data : list Z) (pg : PolyGroup) (fuel : nat) :
  Z.of_nat (length data) / 2 < UINT_MOD →
  (Z.to_nat (Z.of_nat (length data) / 2) < fuel)%nat →
  addPolyData fuel data pg
  = Done {| ps_ := ps_ pg ++
              [read_pair data <$> seqZ 0 (Z.of_nat (length data) / 2)] |}.
Proof.
  intros Hn Hfuel. unfold addPolyData.
  pose proof (Z.div_pos (Z.of_nat (length data)) 2) as Hpos.
  pose proof (Z.mul_div_le (Z.of_nat (length data)) 2) as Hle.
  rewrite (addPolyData_loop_run data) by (rewrite ?length_replicate, ?Z.sub_0_r; lia).
  change (Z.to_nat 0) with 0%nat. rewrite take_0, app_nil_l, Z.sub_0_r.
  unfold set_points. rewrite take_ge; [done|].
  rewrite length_fmap, length_seqZ. lia.
Qed.

(** Below [2^31] vertices no index wraps: the iterations read the pairs of
    the sequence in order. *)
Lemma read_pair_pairs (data : list Z) :
  Z.of_nat (length data) / 2 ≤ 2147483648 →
  read_pair data <$> seqZ 0 (Z.of_nat (length data) / 2) = pairs data.
Proof.
  intros Hn. apply list_eq. intros k.
  pose proof (pairs_length data) as Hplen.
  pose proof (Z.mul_div_le (Z.of_nat (length data)) 2) as Hle.
  rewrite list_lookup_fmap, pairs_lookup.
  destruct (decide (Z.of_nat k < Z.of_nat (length data) / 2)) as [Hk|Hk].
  - rewrite lookup_seqZ_lt by done. cbn [fmap option_fmap option_map].
    unfold read_pair. rewrite Z.add_0_l.
    rewrite (u32_small (2 * Z.of_nat k)) by (unfold UINT_MOD; lia).
    rewrite (u32_small (2 * Z.of_nat k + 1)) by (unfold UINT_MOD; lia).
    unfold vector_at.
    replace (Z.to_nat (2 * Z.of_nat k)) with (2 * k)%nat by lia.
    replace (Z.to_nat (2 * Z.of_nat k + 1)) with (2 * k + 1)%nat by lia.
    destruct (lookup_lt_is_Some_2 data (2 * k)) as [x ->]; [lia|].
    destruct (lookup_lt_is_Some_2 data (2 * k + 1)) as [y ->]; [lia|].
    done.
  - rewrite lookup_seqZ_ge by lia. cbn [fmap option_fmap option_map].
    pose proof (Z.div_mod (Z.of_nat (length data)) 2) as Hdm.
    pose proof (Z.mod_pos_bound (Z.of_nat (length data)) 2) as Hmod.
    rewrite (lookup_ge_None_2 data (2 * k + 1)) by lia.
    by destruct (data !! (2 * k)%nat).
Qed.

(** Sequences of at most [2^32 + 1] elements: [addPolyData] returns and
    appends the polygon of the leading pairs. *)
Lemma addPolyData_small (data : list Z) (pg : PolyGroup) (fuel : nat) :
  Z.of_nat (length data) < UINT_MOD + 2 →
  (length data / 2 < fuel)%nat →
  addPolyData fuel data pg = Done {| ps_ := ps_ pg ++ [pairs data] |}.
Proof.
  intros Hlen Hfuel.
  assert (Z.of_nat (length data) / 2 ≤ 2147483648) as Hn.
  { pose proof (Z.div_mod (Z.of_nat (length data)) 2) as Hdm.
    pose proof (Z.mod_pos_bound (Z.of_nat (length data)) 2) as Hmod.
    unfold UINT_MOD in Hlen. lia. }
  rewrite addPolyData_run.
  - by rewrite read_pair_pairs.
  - unfold UINT_MOD. lia.
  - rewrite <- (Nat2Z.inj_div _ 2). lia.
Qed.

(** From [2^32] vertices on the counter wraps before it reaches the bound:
    the loop never ends. *)
Lemma addPolyData_loop_diverges (data : list Z) (npts : Z) :
  UINT_MOD ≤ npts →
  2 * npts ≤ Z.of_nat (length data) →
  ∀ (fuel : nat) (i : Z) (pts : list Point),
    0 ≤ i < UINT_MOD →
    addPolyData_loop fuel data npts i pts = OutOfFuel.
Proof.
  intros Hn Hlen. induction fuel as [|fuel IH]; intros i pts Hi; [done|].
  cbn [addPolyData_loop]. destruct (Z.ltb_spec i npts) as [Hlt|Hge]; [|lia].
  pose proof (u32_range (2 * i)) as Hr0.
  pose proof (u32_range (u32 (2 * i) + 1)) as Hr1.
  rewrite (vector_at_lt data (u32 (2 * i))) by lia.
  rewrite (vector_at_lt data (u32 (u32 (2 * i) + 1))) by lia.
  apply IH, u32_range.
Qed.

Lemma addPolyData_diverges (data : list Z) (pg : PolyGroup) (fuel : nat) :
  2 * UINT_MOD ≤ Z.of_nat (length data) →
  addPolyData fuel data pg = OutOfFuel.
Proof.
  intros Hlen. unfold addPolyData.
  pose proof (Z.mul_div_le (Z.of_nat (length data)) 2) as Hle.
  rewrite (addPolyData_loop_diverges data); [done| | lia | unfold UINT_MOD; lia].
  apply Z.div_le_lower_bound; lia.
Qed.

Lemma pairs_flat (poly : list Point) : pairs (flat poly) = poly.
Proof.
  induction poly as [|[x y] r IH]; [done|].
  cbn [flat pairs px py fst snd]. by rewrite IH.
Qed.

(** Reading back the polygon that was appended last. *)
Lemma getPoly_last (ps : PolygonSet) (poly : Polygon) :
  getPoly (Z.of_nat (length ps)) {| ps_ := ps ++ [poly] |} = flat poly.
Proof.
  unfold getPoly. cbn [ps_]. rewrite length_app. cbn [length].
  destruct (Z.ltb_spec (Z.of_nat (length ps)) (Z.of_nat (length ps + 1)));
    [|lia].
  rewrite Nat2Z.id, lookup_app_r, Nat.sub_diag by lia. cbn [lookup list_lookup].
  by rewrite foldl_push_vertex.
Qed.

(** ** A sequence too long for the counter *)

Section LongInput.

Variable n : nat.
Hypothesis Hn : Z.of_nat n = UINT_MOD.

Lemma long_length : Z.of_nat (length (zeros_then_one n)) = UINT_MOD + 2.
Proof.
  unfold zeros_then_one. rewrite length_app, length_replicate.
  cbn [length]. lia.
Qed.

Lemma long_half : Z.of_nat (length (zeros_then_one n)) / 2 = 2147483649.
Proof. rewrite long_length. reflexivity. Qed.

Lemma long_at (k : Z) :
  0 ≤ k < UINT_MOD → vector_at (zeros_then_one n) k = Some 0.
Proof.
  intros Hk. unfold vector_at, zeros_then_one.
  rewrite lookup_app_l by (rewrite length_replicate; lia).
  apply lookup_replicate_2. lia.
Qed.

(** Every iteration reads zeros: index [2^32] wraps to [0]. *)
Lemma long_read (k : Z) : read_pair (zeros_then_one n) k = (0, 0).
Proof.
  unfold read_pair. by rewrite !long_at by apply u32_range.
Qed.

Lemma long_run (pg : PolyGroup) (fuel : nat) :
  (Z.to_nat 2147483649 < fuel)%nat →
  addPolyData fuel (zeros_then_one n) pg
  = Done {| ps_ := ps_ pg ++
              [read_pair (zeros_then_one n) <$> seqZ 0 2147483649] |}.
Proof.
  intros Hfuel. rewrite addPolyData_run; rewrite long_half; try done.
Qed.

Lemma long_stored (v : Point) :
  v ∈ (read_pair (zeros_then_one n) <$> seqZ 0 2147483649) → v = (0, 0).
Proof.
  intros (k & -> & _)%list_elem_of_fmap. apply long_read.
Qed.

Lemma long_stored_lookup :
  (read_pair (zeros_then_one n) <$> seqZ 0 2147483649)
    !! Z.to_nat 2147483648 = Some (0, 0).
Proof.
  rewrite list_lookup_fmap, lookup_seqZ_lt by lia.
  cbn [fmap option_fmap option_map]. by rewrite long_read.
Qed.

Lemma long_pairs_lookup :
  pairs (zeros_then_one n) !! Z.to_nat 2147483648 = Some (1, 1).
Proof.
  rewrite pairs_lookup. unfold zeros_then_one.
  rewrite !lookup_app_r by (rewrite length_replicate; unfold UINT_MOD in Hn; lia).
  rewrite length_replicate.
  replace (2 * Z.to_nat 2147483648 - n)%nat with 0%nat
    by (unfold UINT_MOD in Hn; lia).
  replace (2 * Z.to_nat 2147483648 + 1 - n)%nat with 1%nat
    by (unfold UINT_MOD in Hn; lia).
  done.
Qed.

End LongInput.

Lemma long_input_size : Z.of_nat (Z.to_nat UINT_MOD) = UINT_MOD.
Proof. apply Z2Nat.id. unfold UINT_MOD. lia. Qed.

(** The bounds check of [at] never fires: every index the loop computes
    is below twice the vertex count, wrapped or not. *)
Lemma addPolyData_loop_never_throws (data : list Z) (npts : Z) :
  2 * npts ≤ Z.of_nat (length data) →
  ∀ (fuel : nat) (i : Z) (pts : list Point) (e : exn),
    0 ≤ i →
    addPolyData_loop fuel data npts i pts ≠ Throw e.
Proof.
  intros Hlen. induction fuel as [|fuel IH]; intros i pts e Hi; [done|].
  cbn [addPolyData_loop]. destruct (Z.ltb_spec i npts) as [Hlt|Hge]; [|done].
  pose proof (u32_range (2 * i)) as Hr0. pose proof (u32_le (2 * i)) as Hl0.
  pose proof (u32_range (u32 (2 * i) + 1)) as Hr1.
  pose proof (u32_le (u32 (2 * i) + 1)) as Hl1.
  rewrite (vector_at_lt data (u32 (2 * i))) by lia.
  rewrite (vector_at_lt data (u32 (u32 (2 * i) + 1))) by lia.
  apply IH. apply u32_range.
Qed.

Lemma addPolyData_never_throws (fuel : nat) (data : list Z) (pg : PolyGroup)
    (e : exn) :
  addPolyData fuel data pg ≠ Throw e.
Proof.
  unfold addPolyData.
  pose proof (Z.mul_div_le (Z.of_nat (length data)) 2) as Hle.
  pose proof (addPolyData_loop_never_throws data (Z.of_nat (length data) / 2)
                ltac:(lia) fuel 0
                (replicate (Z.to_nat (Z.of_nat (length data) / 2)) (construct 0 0)))
    as Hloop.
  destruct (addPolyData_loop _ _ _ _ _) as [pts'|e'|]; [done| |done].
  intros [= ->]. by apply (Hloop e).
Qed.

(** The empty sequence and a sequence of two points are stored as they
    are. *)
Lemma addPolyData_empty_input :
  addPolyData 1 [] newPolyGroup = Done {| ps_ := [[]] |}.
Proof. reflexivity. Qed.

Lemma addPolyData_two_points :
  addPolyData 3 [1; 2; 3; 4] newPolyGroup = Done {| ps_ := [[(1, 2); (3, 4)]] |}.
Proof. reflexivity. Qed.

(** ** addPolyData on ordinary input *)

(** C2, as the code has it: for every flat sequence of odd length (of at
    most [2^32 + 1] elements) [addPolyData] raises nothing; it returns
    and appends one polygon, made of the pairs of the leading
    [length - 1] coordinates, and the last coordinate is dropped. *)
Theorem addPolyData_odd_length (data : list Z) (pg : PolyGroup) :
  Z.odd (Z.of_nat (length data)) = true →
  Z.of_nat (length data) < UINT_MOD + 2 →
  ∃ pg' : PolyGroup,
    addPolyData (S (length data)) data pg = Done pg' ∧
    ps_ pg' = ps_ pg ++ [pairs data] ∧
    length (ps_ pg') = S (length (ps_ pg)) ∧
    getPoly (Z.of_nat (length (ps_ pg))) pg' = take (length data - 1) data.
Proof.
  intros Hodd Hlen. eexists. split.
  - apply addPolyData_small; [done|].
    pose proof (Nat.Div0.div_le_upper_bound (length data) 2 (length data)).
    lia.
  - cbn [ps_]. split; [done|]. split.
    + rewrite length_app. cbn [length]. lia.
    + by rewrite getPoly_last, flat_pairs_odd.
Qed.

Lemma addPolyData_odd_length_witness :
  Z.odd (Z.of_nat (length [1; 2; 3])) = true ∧
  Z.of_nat (length [1; 2; 3]) < UINT_MOD + 2 ∧
  ∃ pg' : PolyGroup,
    addPolyData (S (length [1; 2; 3])) [1; 2; 3] newPolyGroup = Done pg' ∧
    ps_ pg' = ps_ newPolyGroup ++ [pairs [1; 2; 3]] ∧
    length (ps_ pg') = S (length (ps_ newPolyGroup)) ∧
    getPoly (Z.of_nat (length (ps_ newPolyGroup))) pg'
    = take (length [1; 2; 3] - 1) [1; 2; 3].
Proof.
  split; [reflexivity|]. split; [reflexivity|].
  apply (addPolyData_odd_length [1; 2; 3] newPolyGroup); reflexivity.
Defined.

(** C2, as stated, fails: on the odd-length sequence 1, 2, 3 and a fresh
    group [addPolyData] returns normally and the group has changed: it
    holds the one-vertex polygon (1,2). *)
Lemma addPolyData_odd_returns :
  Z.odd (Z.of_nat (length [1; 2; 3])) = true ∧
  addPolyData 2 [1; 2; 3] newPolyGroup = Done {| ps_ := [[(1, 2)]] |} ∧
  getPolyCount newPolyGroup = 0 ∧
  getPolyCount {| ps_ := [[(1, 2)]] |} = 1.
Proof. repeat split. Qed.

(** Round trip below the wrap: a flat sequence of even length (at most
    [2^32] elements) is read back unchanged from the index it was stored
    at, whatever the group held before. *)
Lemma addPolyData_getPoly_small (data : list Z) (pg : PolyGroup) :
  Z.even (Z.of_nat (length data)) = true →
  Z.of_nat (length data) < UINT_MOD + 2 →
  ∃ pg' : PolyGroup,
    addPolyData (S (length data)) data pg = Done pg' ∧
    getPoly (Z.of_nat (length (ps_ pg))) pg' = data ∧
    same_cycle (pairs data)
      (pairs (getPoly (Z.of_nat (length (ps_ pg))) pg')).
Proof.
  intros Hev Hlen. eexists. split.
  - apply addPolyData_small; [done|].
    pose proof (Nat.Div0.div_le_upper_bound (length data) 2 (length data)).
    lia.
  - rewrite getPoly_last, flat_pairs_even by done. split; [done|].
    exists 0%nat. by rewrite drop_0, take_0, app_nil_r.
Qed.

(** C3 on [long_input]: the sequence is well formed (even length, more
    than three vertex pairs) and [addPolyData] returns, but what
    [getPoly] gives back at the new index is not the vertex cycle of the
    input: the input has the vertex (1,1), the polygon read back has
    none. *)
Theorem addPolyData_getPoly_long_input :
  Z.even (Z.of_nat (length long_input)) = true ∧
  3 ≤ Z.of_nat (length long_input) / 2 ∧
  ∃ (fuel : nat) (pg' : PolyGroup),
    addPolyData fuel long_input newPolyGroup = Done pg' ∧
    ¬ same_cycle (pairs long_input)
        (pairs (getPoly (getPolyCount newPolyGroup) pg')).
Proof.
  pose proof long_input_size as Hn. unfold long_input.
  split; [by rewrite long_length|]. split; [by rewrite long_half|].
  exists (S (S (Z.to_nat 2147483649))). eexists. split.
  - apply long_run; [done | lia].
  - change (getPolyCount newPolyGroup) with (Z.of_nat (length (@nil Polygon))).
    unfold newPolyGroup. cbn [ps_].
    rewrite (getPoly_last []), pairs_flat. intros Hcyc.
    assert ((1, 1) ∈ pairs (zeros_then_one (Z.to_nat UINT_MOD))) as Hin.
    { apply list_elem_of_lookup. eexists. by apply long_pairs_lookup. }
    apply (same_cycle_elem_of _ _ _ Hcyc), long_stored in Hin; done.
Qed.

(** C10 on [long_input]: [addPolyData] returns with one polygon of
    [2^31 + 1] vertices, but vertex number [2^31] is (0,0), read from the
    elements 0 and 1, while elements [2^32] and [2^32 + 1] of the
    sequence are 1 and 1. *)
Theorem addPolyData_long_input_wraps :
  ∃ (fuel : nat) (poly : Polygon),
    addPolyData fuel long_input newPolyGroup = Done {| ps_ := [poly] |} ∧
    length poly = length (pairs long_input) ∧
    poly !! Z.to_nat 2147483648 = Some (0, 0) ∧
    pairs long_input !! Z.to_nat 2147483648 = Some (1, 1).
Proof.
  pose proof long_input_size as Hn. unfold long_input.
  exists (S (S (Z.to_nat 2147483649))).
  exists (read_pair (zeros_then_one (Z.to_nat UINT_MOD))
            <$> seqZ 0 2147483649).
  split; [|split; [|split]].
  - apply (long_run _ Hn newPolyGroup). lia.
  - apply Nat2Z.inj. rewrite pairs_length, long_half by done.
    rewrite length_fmap, length_seqZ. lia.
  - by apply long_stored_lookup.
  - by apply long_pairs_lookup.
Qed.

(** ** getPoly *)

(** C6: for every group and every index [n] (an [unsigned int], so not
    negative), [getPoly] returns the flat coordinate sequence of the
    polygon stored at [n] when [n] is below the number of stored
    polygons, and the empty sequence otherwise; it is a total function
    and raises nothing. *)
Theorem getPoly_index (pg : PolyGroup) (n : Z) :
  0 ≤ n →
  (n < Z.of_nat (length (ps_ pg)) →
     ∃ poly : Polygon,
       ps_ pg !! Z.to_nat n = Some poly ∧ getPoly n pg = flat poly) ∧
  (Z.of_nat (length (ps_ pg)) ≤ n → getPoly n pg = []).
Proof.
  intros Hn. unfold getPoly. split; intros Hlt.
  - destruct (Z.ltb_spec n (Z.of_nat (length (ps_ pg)))); [|lia].
    destruct (lookup_lt_is_Some_2 (ps_ pg) (Z.to_nat n)) as [poly Hpoly];
      [lia|].
    exists poly. rewrite Hpoly. by rewrite foldl_push_vertex.
  - destruct (Z.ltb_spec n (Z.of_nat (length (ps_ pg)))); [lia|done].
Qed.

Lemma getPoly_index_witness :
  0 ≤ 1 ∧
  (1 < Z.of_nat (length (ps_ {| ps_ := [[(1, 2)]; [(3, 4); (5, 6)]] |})) →
     ∃ poly : Polygon,
       ps_ {| ps_ := [[(1, 2)]; [(3, 4); (5, 6)]] |} !! Z.to_nat 1 = Some poly ∧
       getPoly 1 {| ps_ := [[(1, 2)]; [(3, 4); (5, 6)]] |} = flat poly) ∧
  (Z.of_nat (length (ps_ {| ps_ := [[(1, 2)]; [(3, 4); (5, 6)]] |})) ≤ 1 →
     getPoly 1 {| ps_ := [[(1, 2)]; [(3, 4); (5, 6)]] |} = []).
Proof.
  split; [lia|].
  apply (getPoly_index {| ps_ := [[(1, 2)]; [(3, 4); (5, 6)]] |} 1). lia.
Defined.

(** ** The concrete scenario *)

Lemma squares_added :
  addPolyData 5 square_A newPolyGroup
  = Done {| ps_ := [[(0, 0); (10, 0); (10, 10); (0, 10)]] |} ∧
  addPolyData 5 square_B newPolyGroup
  = Done {| ps_ := [[(5, 5); (15, 5); (15, 15); (5, 15)]] |}.
Proof. split; reflexivity. Qed.

(** C1: the squares A and B, each added to a fresh group with
    [addPolyData]; on the sweep written from the specification the area
    of A and of B is 100, and after the in-place operation on A the area
    is 25 for the intersection, 175 for the union, 75 for the difference
    and 150 for the symmetric difference. *)
Theorem squares_scenario :
  ∃ A B : PolyGroup,
    addPolyData 5 square_A newPolyGroup = Done A ∧
    addPolyData 5 square_B newPolyGroup = Done B ∧
    (area SpecEngine.gtl_area A == 100)%Q ∧
    (area SpecEngine.gtl_area B == 100)%Q ∧
    (area SpecEngine.gtl_area
       (intersection SpecEngine.gtl_self_assign A B) == 25)%Q ∧
    (area SpecEngine.gtl_area
       (merge SpecEngine.gtl_self_assign A B) == 175)%Q ∧
    (area SpecEngine.gtl_area
       (difference SpecEngine.gtl_self_assign A B) == 75)%Q ∧
    (area SpecEngine.gtl_area
       (exor SpecEngine.gtl_self_assign A B) == 150)%Q.
Proof.
  destruct squares_added as [HA HB].
  eexists. eexists. split; [exact HA|]. split; [exact HB|].
  repeat split; vm_compute; reflexivity.
Qed.

(** * Further properties of the wrapper *)

(** ** Outcome of addPolyData *)

Lemma half_lt_UINT_MOD (len : Z) :
  0 ≤ len → (len / 2 < UINT_MOD ↔ len < 2 * UINT_MOD).
Proof.
  intros Hlen. pose proof (Z.div_mod len 2) as Hdm.
  pose proof (Z.mod_pos_bound len 2) as Hmod. unfold UINT_MOD. lia.
Qed.

(** X1: [addPolyData] returns exactly on the sequences of fewer than
    [2^33] elements: below that some amount of fuel ends the loop, from
    there on the 32-bit counter wraps before it reaches the vertex count
    and no amount of fuel does. *)
Theorem addPolyData_returns_iff (data : list Z) (pg : PolyGroup) :
  (∃ (fuel : nat) (pg' : PolyGroup), addPolyData fuel data pg = Done pg')
  ↔ Z.of_nat (length data) < 2 * UINT_MOD.
Proof.
  split.
  - intros (fuel & pg' & Hrun).
    destruct (Z.lt_ge_cases (Z.of_nat (length data)) (2 * UINT_MOD)) as [|Hge];
      [done|].
    by rewrite addPolyData_diverges in Hrun.
  - intros Hlen.
    exists (S (Z.to_nat (Z.of_nat (length data) / 2))). eexists.
    apply addPolyData_run; [|lia]. apply half_lt_UINT_MOD; lia.
Qed.

Lemma addPolyData_returns_iff_witness :
  (∃ (fuel : nat) (pg' : PolyGroup),
     addPolyData fuel [1; 2; 3] newPolyGroup = Done pg')
  ∧ Z.of_nat (length [1; 2; 3]) < 2 * UINT_MOD.
Proof.
  split; [|reflexivity].
  apply (proj2 (addPolyData_returns_iff [1; 2; 3] newPolyGroup)). reflexivity.
Defined.

Lemma u32_double_succ (k : Z) : u32 (u32 (2 * k) + 1) = u32 (2 * k) + 1.
Proof.
  apply u32_small. unfold u32, UINT_MOD.
  change 4294967296 with (2 * 2147483648).
  rewrite Z.mul_mod_distr_l by lia.
  pose proof (Z.mod_pos_bound k 2147483648). lia.
Qed.

(** X2: on every sequence of fewer than [2^33] elements [addPolyData]
    appends one polygon of [length/2] vertices, and vertex [k] is read
    from the positions [2*k mod 2^32] and [2*k mod 2^32 + 1] of the
    sequence: the exact content, wrapped indices included. *)
Theorem addPolyData_stored_vertices (data : list Z) (pg : PolyGroup)
    (fuel : nat) :
  Z.of_nat (length data) < 2 * UINT_MOD →
  (Z.to_nat (Z.of_nat (length data) / 2) < fuel)%nat →
  ∃ poly : Polygon,
    addPolyData fuel data pg = Done {| ps_ := ps_ pg ++ [poly] |} ∧
    Z.of_nat (length poly) = Z.of_nat (length data) / 2 ∧
    ∀ k : Z, 0 ≤ k < Z.of_nat (length data) / 2 →
      ∃ x y : Z,
        vector_at data (u32 (2 * k)) = Some x ∧
        vector_at data (u32 (2 * k) + 1) = Some y ∧
        poly !! Z.to_nat k = Some (x, y).
Proof.
  intros Hlen Hfuel.
  pose proof (Z.div_pos (Z.of_nat (length data)) 2) as Hpos.
  pose proof (Z.mul_div_le (Z.of_nat (length data)) 2) as Hle.
  exists (read_pair data <$> seqZ 0 (Z.of_nat (length data) / 2)).
  split; [|split].
  - apply addPolyData_run; [|done]. apply half_lt_UINT_MOD; lia.
  - rewrite length_fmap, length_seqZ. lia.
  - intros k Hk.
    pose proof (u32_range (2 * k)) as Hr. pose proof (u32_le (2 * k)) as Hl.
    exists (default 0 (vector_at data (u32 (2 * k)))),
           (default 0 (vector_at data (u32 (2 * k) + 1))).
    split; [apply vector_at_lt; lia|]. split; [apply vector_at_lt; lia|].
    rewrite list_lookup_fmap, lookup_seqZ_lt by lia.
    cbn [fmap option_fmap option_map].
    replace (0 + Z.of_nat (Z.to_nat k)) with k by lia.
    unfold read_pair. by rewrite u32_double_succ.
Qed.

Lemma addPolyData_stored_vertices_witness :
  Z.of_nat (length [7; 8; 9; 10; 11]) < 2 * UINT_MOD ∧
  (Z.to_nat (Z.of_nat (length [7; 8; 9; 10; 11]) / 2) < 3)%nat ∧
  ∃ poly : Polygon,
    addPolyData 3 [7; 8; 9; 10; 11] newPolyGroup
    = Done {| ps_ := ps_ newPolyGroup ++ [poly] |} ∧
    Z.of_nat (length poly) = Z.of_nat (length [7; 8; 9; 10; 11]) / 2 ∧
    ∀ k : Z, 0 ≤ k < Z.of_nat (length [7; 8; 9; 10; 11]) / 2 →
      ∃ x y : Z,
        vector_at [7; 8; 9; 10; 11] (u32 (2 * k)) = Some x ∧
        vector_at [7; 8; 9; 10; 11] (u32 (2 * k) + 1) = Some y ∧
        poly !! Z.to_nat k = Some (x, y).
Proof.
  split; [reflexivity|]. split; [vm_compute; lia|].
  apply (addPolyData_stored_vertices [7; 8; 9; 10; 11] newPolyGroup 3);
    [reflexivity | vm_compute; lia].
Defined.

(** ** What addPolyData leaves alone *)

Lemma getPoly_app_l (ps l : PolygonSet) (n : Z) :
  0 ≤ n < Z.of_nat (length ps) →
  getPoly n {| ps_ := ps ++ l |} = getPoly n {| ps_ := ps |}.
Proof.
  intros Hn. unfold getPoly. cbn [ps_]. rewrite length_app.
  destruct (Z.ltb_spec n (Z.of_nat (length ps + length l))); [|lia].
  destruct (Z.ltb_spec n (Z.of_nat (length ps))); [|lia].
  by rewrite lookup_app_l by lia.
Qed.

(** X3: whenever [addPolyData] returns, the group holds exactly one
    polygon more, [getPolyCount] has advanced by one modulo [2^32], and
    every polygon stored before is still at its index, unchanged:
    [getPoly] returns for it what it returned before. *)
Theorem addPolyData_keeps_stored (fuel : nat) (data : list Z)
    (pg pg' : PolyGroup) :
  addPolyData fuel data pg = Done pg' →
  length (ps_ pg') = S (length (ps_ pg)) ∧
  getPolyCount pg' = u32 (getPolyCount pg + 1) ∧
  ∀ n : Z, 0 ≤ n < Z.of_nat (length (ps_ pg)) →
    ps_ pg' !! Z.to_nat n = ps_ pg !! Z.to_nat n ∧
    getPoly n pg' = getPoly n pg.
Proof.
  unfold addPolyData.
  destruct (addPolyData_loop _ _ _ _ _) as [pts'| |]; [|done..].
  intros [= <-]. cbn [ps_]. split; [|split].
  - rewrite length_app. cbn [length]. lia.
  - unfold getPolyCount, u32. cbn [ps_]. rewrite length_app. cbn [length].
    rewrite Z.add_mod_idemp_l by (unfold UINT_MOD; lia). f_equal. lia.
  - intros n Hn. split; [by rewrite lookup_app_l by lia|].
    destruct pg as [ps]. by apply getPoly_app_l.
Qed.

Lemma addPolyData_keeps_stored_witness :
  addPolyData 3 [1; 2; 3; 4] {| ps_ := [[(9, 9)]] |}
  = Done {| ps_ := [[(9, 9)]; [(1, 2); (3, 4)]] |} ∧
  length (ps_ {| ps_ := [[(9, 9)]; [(1, 2); (3, 4)]] |})
  = S (length (ps_ {| ps_ := [[(9, 9)]] |})) ∧
  getPolyCount {| ps_ := [[(9, 9)]; [(1, 2); (3, 4)]] |}
  = u32 (getPolyCount {| ps_ := [[(9, 9)]] |} + 1) ∧
  ∀ n : Z, 0 ≤ n < Z.of_nat (length (ps_ {| ps_ := [[(9, 9)]] |})) →
    ps_ {| ps_ := [[(9, 9)]; [(1, 2); (3, 4)]] |} !! Z.to_nat n
    = ps_ {| ps_ := [[(9, 9)]] |} !! Z.to_nat n ∧
    getPoly n {| ps_ := [[(9, 9)]; [(1, 2); (3, 4)]] |}
    = getPoly n {| ps_ := [[(9, 9)]] |}.
Proof.
  split; [reflexivity|].
  apply (addPolyData_keeps_stored 3 [1; 2; 3; 4] {| ps_ := [[(9, 9)]] |}).
  reflexivity.
Defined.

(** ** What getPoly returns *)

Lemma flat_length (poly : list Point) :
  length (flat poly) = (2 * length poly)%nat.
Proof. induction poly as [|v r IH]; cbn [flat length]; lia. Qed.

Lemma getPoly_flat (n : Z) (pg : PolyGroup) :
  ∃ poly : Polygon, getPoly n pg = flat poly.
Proof.
  unfold getPoly. destruct (n <? Z.of_nat (length (ps_ pg))); [|by exists []].
  destruct (ps_ pg !! Z.to_nat n) as [poly|]; [|by exists []].
  exists poly. by rewrite foldl_push_vertex.
Qed.

(** X4: whatever the group and the index, [getPoly] returns a sequence of
    even length that splits into vertex pairs without loss: pairing it
    and flattening the pairs gives the sequence back. *)
Theorem getPoly_well_formed (n : Z) (pg : PolyGroup) :
  Z.even (Z.of_nat (length (getPoly n pg))) = true ∧
  flat (pairs (getPoly n pg)) = getPoly n pg.
Proof.
  destruct (getPoly_flat n pg) as [poly ->]. split.
  - rewrite flat_length, Nat2Z.inj_mul. apply Z.even_mul.
  - by rewrite pairs_flat.
Qed.

(** X5: what [getPoly] returns for a stored polygon (of at most [2^31]
    vertices) can be handed to [addPolyData] of any group: the call
    returns and appends that same polygon, vertex for vertex. *)
Theorem getPoly_addPolyData (n : Z) (pg pg2 : PolyGroup) (poly : Polygon) :
  0 ≤ n →
  ps_ pg !! Z.to_nat n = Some poly →
  Z.of_nat (length poly) ≤ 2147483648 →
  addPolyData (S (length (getPoly n pg))) (getPoly n pg) pg2
  = Done {| ps_ := ps_ pg2 ++ [poly] |}.
Proof.
  intros Hn Hpoly Hsize.
  assert (getPoly n pg = flat poly) as ->.
  { unfold getPoly. apply lookup_lt_Some in Hpoly as Hlt.
    destruct (Z.ltb_spec n (Z.of_nat (length (ps_ pg)))); [|lia].
    by rewrite Hpoly, foldl_push_vertex. }
  rewrite addPolyData_small, pairs_flat; [done| |].
  - rewrite flat_length. unfold UINT_MOD. lia.
  - pose proof (Nat.Div0.div_le_upper_bound (length (flat poly)) 2
                  (length (flat poly))). lia.
Qed.

Lemma getPoly_addPolyData_witness :
  0 ≤ 0 ∧
  ps_ {| ps_ := [[(1, 2); (3, 4)]] |} !! Z.to_nat 0 = Some [(1, 2); (3, 4)] ∧
  Z.of_nat (length [(1, 2); (3, 4)]) ≤ 2147483648 ∧
  addPolyData (S (length (getPoly 0 {| ps_ := [[(1, 2); (3, 4)]] |})))
    (getPoly 0 {| ps_ := [[(1, 2); (3, 4)]] |}) {| ps_ := [[(9, 9)]] |}
  = Done {| ps_ := ps_ {| ps_ := [[(9, 9)]] |} ++ [[(1, 2); (3, 4)]] |}.
Proof.
  split; [lia|]. split; [reflexivity|]. split; [vm_compute; discriminate|].
  apply (getPoly_addPolyData 0 {| ps_ := [[(1, 2); (3, 4)]] |}
           {| ps_ := [[(9, 9)]] |} [(1, 2); (3, 4)]);
    [lia | reflexivity | vm_compute; discriminate].
Defined.

(** ** Outcome of addPolyData, whatever the fuel *)

Lemma addPolyData_loop_length (data : list Z) (npts : Z) :
  ∀ (fuel : nat) (i : Z) (pts pts' : list Point),
    addPolyData_loop fuel data npts i pts = Done pts' →
    length pts' = length pts.
Proof.
  induction fuel as [|fuel IH]; intros i pts pts' Hrun; [done|].
  cbn [addPolyData_loop] in Hrun. destruct (i <? npts).
  - destruct (vector_at data (u32 (2 * i))) as [x|]; [|done].
    destruct (vector_at data (u32 (u32 (2 * i) + 1))) as [y|]; [|done].
    apply IH in Hrun. by rewrite length_insert in Hrun.
  - by injection Hrun as <-.
Qed.

(** X6: on every sequence and with every amount of fuel, [addPolyData]
    either is still running or has returned with exactly one polygon of
    [length/2] vertices appended; the bounds check of [at] never fires,
    so no call ends in [std::out_of_range]. *)
Theorem addPolyData_outcome (fuel : nat) (data : list Z) (pg : PolyGroup) :
  addPolyData fuel data pg = OutOfFuel ∨
  ∃ poly : Polygon,
    addPolyData fuel data pg = Done {| ps_ := ps_ pg ++ [poly] |} ∧
    Z.of_nat (length poly) = Z.of_nat (length data) / 2.
Proof.
  pose proof (addPolyData_never_throws fuel data pg) as Hthrow.
  unfold addPolyData in *.
  pose proof (addPolyData_loop_length data (Z.of_nat (length data) / 2) fuel 0
                (replicate (Z.to_nat (Z.of_nat (length data) / 2))
                   (construct 0 0))) as Hlen.
  destruct (addPolyData_loop _ _ _ _ _) as [pts'|e|]; [|by destruct (Hthrow e)|by left].
  right. eexists. split; [done|].
  specialize (Hlen pts' eq_refl). rewrite length_replicate in Hlen.
  unfold set_points. rewrite length_take, Hlen.
  pose proof (Z.div_pos (Z.of_nat (length data)) 2). lia.
Qed.

(** ** Adding and enumerating *)



(** X8: calling [getPoly] for the indices 0, 1, ..., [getPolyCount() - 1]
    enumerates the stored polygons (all of them, each once, in the order
    of storage) exactly while fewer than [2^32] polygons are stored; from
    there on [getPolyCount] is truncated to 32 bits and the enumeration
    falls short. *)
Theorem getPoly_enumerates (pg : PolyGroup) :
  (λ n, getPoly n pg) <$> seqZ 0 (getPolyCount pg) = flat <$> ps_ pg
  ↔ Z.of_nat (length (ps_ pg)) < UINT_MOD.
Proof.
  split.
  - intros Heq. apply (f_equal length) in Heq.
    rewrite !length_fmap, length_seqZ in Heq.
    pose proof (u32_range (Z.of_nat (length (ps_ pg)))) as Hr.
    unfold getPolyCount in Heq. lia.
  - intros Hcount. unfold getPolyCount. rewrite u32_small by lia.
    apply list_eq. intros k. rewrite !list_lookup_fmap.
    destruct (decide (k < length (ps_ pg))%nat) as [Hk|Hk].
    + rewrite lookup_seqZ_lt by lia.
      destruct (lookup_lt_is_Some_2 (ps_ pg) k Hk) as [poly Hpoly].
      rewrite Hpoly. cbn [fmap option_fmap option_map]. f_equal.
      unfold getPoly. rewrite Z.add_0_l, Nat2Z.id, Hpoly.
      destruct (Z.ltb_spec (Z.of_nat k) (Z.of_nat (length (ps_ pg)))); [|lia].
      by rewrite foldl_push_vertex.
    + rewrite lookup_seqZ_ge by lia. by rewrite lookup_ge_None_2 by lia.
Qed.

Lemma getPoly_enumerates_witness :
  Z.of_nat (length (ps_ {| ps_ := [[(1, 2)]; []; [(3, 4); (5, 6)]] |}))
  < UINT_MOD ∧
  (λ n, getPoly n {| ps_ := [[(1, 2)]; []; [(3, 4); (5, 6)]] |})
    <$> seqZ 0 (getPolyCount {| ps_ := [[(1, 2)]; []; [(3, 4); (5, 6)]] |})
  = flat <$> ps_ {| ps_ := [[(1, 2)]; []; [(3, 4); (5, 6)]] |}.
Proof.
  split; [reflexivity|].
  apply (proj2 (getPoly_enumerates
                  {| ps_ := [[(1, 2)]; []; [(3, 4); (5, 6)]] |})).
  reflexivity.
Defined.

(** ** The trailing coordinate *)

Lemma addPolyData_loop_snoc (data : list Z) (z npts : Z) :
  2 * npts ≤ Z.of_nat (length data) →
  ∀ (fuel : nat) (i : Z) (pts : list Point),
    0 ≤ i →
    addPolyData_loop fuel (data ++ [z]) npts i pts
    = addPolyData_loop fuel data npts i pts.
Proof.
  intros Hlen. induction fuel as [|fuel IH]; intros i pts Hi; [done|].
  cbn [addPolyData_loop]. destruct (Z.ltb_spec i npts) as [Hlt|Hge]; [|done].
  pose proof (u32_range (2 * i)) as Hr0. pose proof (u32_le (2 * i)) as Hl0.
  pose proof (u32_range (u32 (2 * i) + 1)) as Hr1.
  pose proof (u32_le (u32 (2 * i) + 1)) as Hl1.
  unfold vector_at. rewrite !lookup_app_l by lia.
  destruct (data !! Z.to_nat (u32 (2 * i))) as [x|]; [|done].
  destruct (data !! Z.to_nat (u32 (u32 (2 * i) + 1))) as [y|]; [|done].
  apply IH. apply u32_range.
Qed.

(** X10: one more coordinate behind a flat sequence of even length has no
    effect at all: for every sequence, group and amount of fuel
    [addPolyData] does on the extended sequence what it does on the
    sequence itself. *)
Theorem addPolyData_trailing (fuel : nat) (data : list Z) (z : Z)
    (pg : PolyGroup) :
  Z.even (Z.of_nat (length data)) = true →
  addPolyData fuel (data ++ [z]) pg = addPolyData fuel data pg.
Proof.
  intros Hev. unfold addPolyData.
  pose proof (Zeven_div2 _ (proj1 (Zeven_bool_iff _) Hev)) as Hdiv.
  rewrite Z.div2_div in Hdiv.
  assert (Z.of_nat (length (data ++ [z])) / 2 = Z.of_nat (length data) / 2)
    as ->.
  { rewrite length_app. cbn [length].
    replace (Z.of_nat (length data + 1))
      with (1 + Z.of_nat (length data) / 2 * 2) by lia.
    rewrite Z.div_add by lia. reflexivity. }
  by rewrite addPolyData_loop_snoc by lia.
Qed.

Lemma addPolyData_trailing_witness :
  Z.even (Z.of_nat (length [1; 2; 3; 4])) = true ∧
  addPolyData 3 ([1; 2; 3; 4] ++ [5]) newPolyGroup
  = addPolyData 3 [1; 2; 3; 4] newPolyGroup.
Proof.
  split; [reflexivity|].
  apply (addPolyData_trailing 3 [1; 2; 3; 4] 5 newPolyGroup). reflexivity.
Defined.
